(** * Position tracking of a quadrature encoder: [encoder_driver.py]

    A shallow embedding of the class [EncoderDriver] and the properties of
    its position-reconstruction algorithm.

    Correspondence with the vocabulary of the specification:
    - [sample(raw)] is [read], the raw value being what [self.timer.counter()]
      returns during the call;
    - [modulus] is the attribute [period];
    - [last_raw] is the attribute [new_tick] as it stands between two calls
      ([last_tick] is only a copy of it taken at the start of [read]);
    - the corrected delta is the attribute [delta_val] after the call. *)

From Stdlib Require Import ZArith QArith Bool List Lia.
From Stdlib Require String.
Import ListNotations String.StringSyntax.
Delimit Scope string_scope with string.

Local Open Scope Z_scope.

(** ** Python numbers

    Every attribute of the driver holds a Python [int], an unbounded integer:
    [Z].  The only floats are the two thresholds [0.5*self.period] and
    [-0.5*self.period].  Multiplying by [0.5] is exact in binary floating
    point and so is the comparison of an [int] with a [float] for the
    magnitudes a 16-bit timer produces, so the thresholds are the exact
    rationals and the comparisons are comparisons in [Q]. *)

Definition py_float_of_int (n : Z) : Q := inject_Z n.

(** [x > y] for an [int] x and a [float] y. *)
Definition py_gt (x : Z) (y : Q) : bool := negb (Qle_bool (py_float_of_int x) y).

(** [x < y] for an [int] x and a [float] y. *)
Definition py_lt (x : Z) (y : Q) : bool := negb (Qle_bool y (py_float_of_int x)).

(** ** The object state *)

(** The numeric attributes of an [EncoderDriver] object.  The pin, timer and
    channel handles ([enc1_pin], [enc2_pin], [timer], [tim_ch1], [tim_ch2])
    are hardware objects that [read] and [zero] only use to obtain the
    counter value; that value is an argument of [read]. *)
Record EncoderDriver : Type := mkEncoderDriver {
  period        : Z;   (* self.period *)
  delta_val     : Z;   (* self.delta_val *)
  last_tick     : Z;   (* self.last_tick *)
  new_tick      : Z;   (* self.new_tick *)
  true_position : Z    (* self.true_position *)
}.

(** Attribute assignments [self.x = v]. *)
Definition set_delta_val (self : EncoderDriver) (v : Z) : EncoderDriver :=
  mkEncoderDriver (period self) v (last_tick self) (new_tick self)
                  (true_position self).

Definition set_last_tick (self : EncoderDriver) (v : Z) : EncoderDriver :=
  mkEncoderDriver (period self) (delta_val self) v (new_tick self)
                  (true_position self).

Definition set_new_tick (self : EncoderDriver) (v : Z) : EncoderDriver :=
  mkEncoderDriver (period self) (delta_val self) (last_tick self) v
                  (true_position self).

Definition set_true_position (self : EncoderDriver) (v : Z) : EncoderDriver :=
  mkEncoderDriver (period self) (delta_val self) (last_tick self)
                  (new_tick self) v.

(** ** The methods *)

(** [__init__], for the numeric attributes: [self.period = 2**16 - 1] and
    the four working attributes start at 0.  Its three arguments are the
    hardware handles, which it only stores. *)
Definition __init__ : EncoderDriver :=
  {| period        := 2 ^ 16 - 1;
     delta_val     := 0;
     last_tick     := 0;
     new_tick      := 0;
     true_position := 0 |}.

(** [read]: [counter] is the value of [self.timer.counter()].  The result
    is the object after the call and the returned position. *)
Definition read (self : EncoderDriver) (counter : Z) : EncoderDriver * Z :=
  (* self.last_tick = self.new_tick *)
  let self := set_last_tick self (new_tick self) in
  (* self.new_tick = self.timer.counter() *)
  let self := set_new_tick self counter in
  (* self.delta_val = self.new_tick - self.last_tick *)
  let self := set_delta_val self (new_tick self - last_tick self) in
  let self :=
    (* if (self.delta_val > 0.5*self.period): *)
    if py_gt (delta_val self) ((1 # 2) * py_float_of_int (period self))%Q
    then set_delta_val self (delta_val self - period self)
    (* elif (self.delta_val < -0.5*self.period): *)
    else if py_lt (delta_val self) (- (1 # 2) * py_float_of_int (period self))%Q
    then set_delta_val self (delta_val self + period self)
    else self in
  (* self.true_position += self.delta_val *)
  let self := set_true_position self (true_position self + delta_val self) in
  (* return(self.true_position) *)
  (self, true_position self).

(** [zero]: the only statement is [self.true_position = 0]. *)
Definition zero (self : EncoderDriver) : EncoderDriver :=
  set_true_position self 0.

(** The object after a [read], and the value the [read] returned. *)
Definition after_read (self : EncoderDriver) (counter : Z) : EncoderDriver :=
  fst (read self counter).

Definition read_value (self : EncoderDriver) (counter : Z) : Z :=
  snd (read self counter).

(** Successive calls of [read], one per counter value, oldest first. *)
Fixpoint read_all (self : EncoderDriver) (counters : list Z) : EncoderDriver :=
  match counters with
  | [] => self
  | c :: rest => read_all (after_read self c) rest
  end.

(** ** Calls made on an object *)

Inductive call : Type :=
| Read (counter : Z)
| Zero.

Definition run_call (self : EncoderDriver) (c : call) : EncoderDriver :=
  match c with
  | Read counter => after_read self counter
  | Zero => zero self
  end.

(** The invariant of the data model: the last raw value lies in
    [[0, modulus)]. *)
Definition last_raw_in_range (self : EncoderDriver) : Prop :=
  0 <= new_tick self < period self.

(** A call respects the contract of the timer when it is [zero], or a
    [read] whose counter value lies in [[0, p)]. *)
Definition call_in_range (p : Z) (c : call) : bool :=
  match c with
  | Read counter => (0 <=? counter) && (counter <? p)
  | Zero => true
  end.

(** A sequence of calls, oldest first. *)
Definition run_calls (self : EncoderDriver) (cs : list call) : EncoderDriver :=
  fold_left run_call cs self.

(** ** Sequences of raw values *)

(** Every value lies in [[0, p)]. *)
Definition in_range (p : Z) (raws : list Z) : bool :=
  forallb (fun r => (0 <=? r) && (r <? p)) raws.

(** Every value is less than half of [p] away from the value before it in
    the list: [|b - a| < p/2], that is [2*|b - a| < p]. *)
Fixpoint no_wrap_pairs (p : Z) (raws : list Z) : bool :=
  match raws with
  | a :: ((b :: _) as rest) =>
      (2 * Z.abs (b - a) <? p) && no_wrap_pairs p rest
  | _ => true
  end.

(** The plain sum of the differences between each value and the value
    before it in the list. *)
Fixpoint sum_deltas (raws : list Z) : Z :=
  match raws with
  | a :: ((b :: _) as rest) => (b - a) + sum_deltas rest
  | _ => 0
  end.

(** ** Integer form of the wrap correction *)

(** The delta [read] leaves in [delta_val], as a function of the period and
    of the raw difference, with the two thresholds in integer form. *)
Definition corrected (p d : Z) : Z :=
  if p <? 2 * d then d - p
  else if 2 * d <? - p then d + p
  else d.

(** ** The test script

    The block under [if __name__ == '__main__'].  The pins and the two
    timers are hardware; what the script sees of [tim_ENC_A] is the value
    each call of its [counter()] returns, given as a function of the number
    of calls made before. *)

(** The Python values the loop forms. *)
Inductive py_value : Type :=
| PyStr (s : String.string)
| PyInt (n : Z).

Inductive py_exception : Type :=
| TypeError.

(** [a + b]: two [str] are concatenated and two [int] are added; a [str]
    and an [int] cannot be added either way round. *)
Definition py_add (a b : py_value) : py_exception + py_value :=
  match a, b with
  | PyStr s, PyStr t => inr (PyStr (String.append s t))
  | PyInt m, PyInt n => inr (PyInt (m + n))
  | _, _ => inl TypeError
  end.

(** What the script has built and done so far. *)
Record script : Type := mkScript {
  enc_A         : EncoderDriver;
  enc_B         : EncoderDriver;
  counter_calls : nat;            (* calls of tim_ENC_A.counter() so far *)
  printed       : list py_value;  (* arguments given to print, oldest first *)
  slept_ms      : Z               (* total of the utime.sleep_ms delays *)
}.

Inductive outcome : Type :=
| Raised (e : py_exception) (st : script)   (* the script ended on e *)
| Looping (st : script).                    (* the loop is still going *)

(** One turn of [while True]. *)
Definition loop_body (tim_ENC_A : nat -> Z) (st : script) : outcome :=
  (* enc_A.read() *)
  let counter := tim_ENC_A (counter_calls st) in
  let position := read_value (enc_A st) counter in
  let st := mkScript (after_read (enc_A st) counter) (enc_B st)
                     (S (counter_calls st)) (printed st) (slept_ms st) in
  (* "Encoder position :" + enc_A.read() *)
  match py_add (PyStr "Encoder position :"%string) (PyInt position) with
  | inl e => Raised e st
  | inr text =>
      (* print(...) *)
      let st := mkScript (enc_A st) (enc_B st) (counter_calls st)
                         (printed st ++ [text]) (slept_ms st) in
      (* utime.sleep_ms(25) *)
      Looping (mkScript (enc_A st) (enc_B st) (counter_calls st)
                        (printed st) (slept_ms st + 25))
  end.

(** At most [turns] turns of the loop. *)
Fixpoint main_loop (turns : nat) (tim_ENC_A : nat -> Z) (st : script)
  : outcome :=
  match turns with
  | O => Looping st
  | S turns' =>
      match loop_body tim_ENC_A st with
      | Raised e st' => Raised e st'
      | Looping st' => main_loop turns' tim_ENC_A st'
      end
  end.

(** The script: both drivers are built, then the loop runs. *)
Definition main (turns : nat) (tim_ENC_A : nat -> Z) : outcome :=
  main_loop turns tim_ENC_A (mkScript __init__ __init__ 0 [] 0).

(** ** The methods with Python's exceptions

    The same three methods over an object whose attributes are looked up by
    name and hold Python values, every operation raising what Python
    raises: [AttributeError] for an attribute that is not set, [TypeError]
    for an operand that is not a number.  The record [EncoderDriver] above
    is the view of such an object when its five numeric attributes are set
    and hold [int]s. *)
Module Dyn.

Local Open Scope string_scope.

Inductive value : Type :=
| VInt (n : Z)     (* an int *)
| VNone            (* None *)
| VHandle.         (* a pin, timer or channel object of pyb *)

Inductive error : Type :=
| AttributeError
| TypeError
| FloatRange.
(* [FloatRange] is no exception of Python: it marks the conversion to float
   of an int beyond 2**24 in magnitude, the range every float format of
   Python holds exactly.  Python rounds such an int, or raises
   OverflowError when it is too large for a float; the model stops there. *)

Inductive result (A : Type) : Type :=
| Ok (a : A)
| Raise (e : error).
Arguments Ok {A} a.
Arguments Raise {A} e.

Definition bind {A B : Type} (c : result A) (k : A -> result B) : result B :=
  match c with
  | Ok a => k a
  | Raise e => Raise e
  end.

Notation "x <- c ;; k" := (bind c (fun x => k))
  (at level 100, c at next level, right associativity).

(** An object: the value of each attribute that is set. *)
Definition object : Type := String.string -> option value.

Definition empty : object := fun _ => None.

(** [self.name] *)
Definition getattr (self : object) (name : String.string) : result value :=
  match self name with
  | Some v => Ok v
  | None => Raise AttributeError
  end.

(** [self.name = v] *)
Definition setattr (self : object) (name : String.string) (v : value)
  : object :=
  fun other => if String.eqb name other then Some v else self other.

(** [a - b] and [a + b] *)
Definition sub (a b : value) : result value :=
  match a, b with
  | VInt x, VInt y => Ok (VInt (x - y))
  | _, _ => Raise TypeError
  end.

Definition add (a b : value) : result value :=
  match a, b with
  | VInt x, VInt y => Ok (VInt (x + y))
  | _, _ => Raise TypeError
  end.

(** [f * b] for a float literal [f]: the int [b] is converted to float. *)
Definition float_mul (f : Q) (b : value) : result Q :=
  match b with
  | VInt n =>
      if Z.abs n <=? 2 ^ 24 then Ok (f * py_float_of_int n)%Q
      else Raise FloatRange
  | _ => Raise TypeError
  end.

(** [a > y] and [a < y] for a float [y] *)
Definition gt (a : value) (y : Q) : result bool :=
  match a with
  | VInt x => Ok (py_gt x y)
  | _ => Raise TypeError
  end.

Definition lt (a : value) (y : Q) : result bool :=
  match a with
  | VInt x => Ok (py_lt x y)
  | _ => Raise TypeError
  end.

(** [t.counter()], the timer returning the int [counter] *)
Definition call_counter (t : value) (counter : Z) : result value :=
  match t with
  | VHandle => Ok (VInt counter)
  | _ => Raise AttributeError
  end.

(** [__init__]: the arguments and the two channels are hardware objects. *)
Definition __init__ : object :=
  let self := empty in
  let self := setattr self "enc1_pin" VHandle in
  let self := setattr self "enc2_pin" VHandle in
  let self := setattr self "timer" VHandle in
  let self := setattr self "tim_ch1" VHandle in
  let self := setattr self "tim_ch2" VHandle in
  let self := setattr self "period" (VInt (2 ^ 16 - 1)) in
  let self := setattr self "delta_val" (VInt 0) in
  let self := setattr self "last_tick" (VInt 0) in
  let self := setattr self "new_tick" (VInt 0) in
  setattr self "true_position" (VInt 0).

(** [read]; [counter] is the int the timer returns. *)
Definition read (self : object) (counter : Z) : result (object * value) :=
  (* self.last_tick = self.new_tick *)
  v <- getattr self "new_tick" ;;
  let self := setattr self "last_tick" v in
  (* self.new_tick = self.timer.counter() *)
  t <- getattr self "timer" ;;
  v <- call_counter t counter ;;
  let self := setattr self "new_tick" v in
  (* self.delta_val = self.new_tick - self.last_tick *)
  a <- getattr self "new_tick" ;;
  b <- getattr self "last_tick" ;;
  v <- sub a b ;;
  let self := setattr self "delta_val" v in
  (* if (self.delta_val > 0.5*self.period): *)
  d <- getattr self "delta_val" ;;
  p <- getattr self "period" ;;
  half <- float_mul (1 # 2) p ;;
  above <- gt d half ;;
  self <-
    (if above : bool then
       (* self.delta_val -= self.period *)
       d <- getattr self "delta_val" ;;
       p <- getattr self "period" ;;
       v <- sub d p ;;
       Ok (setattr self "delta_val" v)
     else
       (* elif (self.delta_val < -0.5*self.period): *)
       d <- getattr self "delta_val" ;;
       p <- getattr self "period" ;;
       half <- float_mul (- (1 # 2)) p ;;
       below <- lt d half ;;
       if below : bool then
         (* self.delta_val += self.period *)
         d <- getattr self "delta_val" ;;
         p <- getattr self "period" ;;
         v <- add d p ;;
         Ok (setattr self "delta_val" v)
       else Ok self) ;;
  (* self.true_position += self.delta_val *)
  t <- getattr self "true_position" ;;
  d <- getattr self "delta_val" ;;
  v <- add t d ;;
  let self := setattr self "true_position" v in
  (* return(self.true_position) *)
  v <- getattr self "true_position" ;;
  Ok (self, v).

(** [zero]; it returns [None]. *)
Definition zero (self : object) : result (object * value) :=
  (* self.true_position = 0 *)
  let self := setattr self "true_position" (VInt 0) in
  Ok (self, VNone).

Definition run_call (self : object) (c : call) : result object :=
  match c with
  | Read counter => r <- read self counter ;; Ok (fst r)
  | Zero => r <- zero self ;; Ok (fst r)
  end.

(** A sequence of calls, oldest first, up to the first that raises. *)
Fixpoint run_calls (self : object) (cs : list call) : result object :=
  match cs with
  | [] => Ok self
  | c :: rest => self' <- run_call self c ;; run_calls self' rest
  end.

(** The numeric attributes of an object, when all are set to ints. *)
Definition int_attr (self : object) (name : String.string) : option Z :=
  match self name with
  | Some (VInt n) => Some n
  | _ => None
  end.

Definition view (self : object) : option EncoderDriver :=
  match int_attr self "period", int_attr self "delta_val",
        int_attr self "last_tick", int_attr self "new_tick",
        int_attr self "true_position", self "timer" with
  | Some p, Some d, Some l, Some n, Some t, Some VHandle =>
      Some (mkEncoderDriver p d l n t)
  | _, _, _, _, _, _ => None
  end.

End Dyn.

(** ** The comparisons with the half period *)

Lemma py_gt_half (d p : Z) :
  py_gt d ((1 # 2) * py_float_of_int p)%Q = (p <? 2 * d).
Proof.
  unfold py_gt, py_float_of_int, Qle_bool.
  cbn [Qnum Qden Qmult Qopp inject_Z Pos.mul].
  destruct (Z.ltb_spec p (2 * d)); [rewrite negb_true_iff | rewrite negb_false_iff].
  - apply Z.leb_gt. lia.
  - apply Z.leb_le. lia.
Qed.

Lemma py_lt_neg_half (d p : Z) :
  py_lt d (- (1 # 2) * py_float_of_int p)%Q = (2 * d <? - p).
Proof.
  unfold py_lt, py_float_of_int, Qle_bool.
  cbn [Qnum Qden Qmult Qopp inject_Z Pos.mul].
  destruct (Z.ltb_spec (2 * d) (- p)); [rewrite negb_true_iff | rewrite negb_false_iff].
  - apply Z.leb_gt. lia.
  - apply Z.leb_le. lia.
Qed.

(** [read] in closed form. *)
Lemma read_unfold (self : EncoderDriver) (counter : Z) :
  read self counter =
  let d := corrected (period self) (counter - new_tick self) in
  (mkEncoderDriver (period self) d (new_tick self) counter
                   (true_position self + d),
   true_position self + d).
Proof.
  unfold read, corrected,
    set_last_tick, set_new_tick, set_delta_val, set_true_position.
  cbn [period delta_val last_tick new_tick true_position].
  rewrite py_gt_half, py_lt_neg_half.
  destruct (period self <? 2 * (counter - new_tick self));
    [reflexivity|].
  destruct (2 * (counter - new_tick self) <? - period self); reflexivity.
Qed.

Lemma after_read_unfold (self : EncoderDriver) (counter : Z) :
  after_read self counter =
  mkEncoderDriver (period self)
                  (corrected (period self) (counter - new_tick self))
                  (new_tick self) counter
                  (true_position self
                   + corrected (period self) (counter - new_tick self)).
Proof. unfold after_read. rewrite read_unfold. reflexivity. Qed.

Lemma read_value_unfold (self : EncoderDriver) (counter : Z) :
  read_value self counter =
  true_position self + corrected (period self) (counter - new_tick self).
Proof. unfold read_value. rewrite read_unfold. reflexivity. Qed.

(** Case analysis on the two thresholds of [corrected]. *)
Ltac split_corrected :=
  unfold corrected in *;
  repeat match goal with
         | |- context [?a <? ?b] => destruct (Z.ltb_spec a b)
         | H : context [?a <? ?b] |- _ => destruct (Z.ltb_spec a b)
         end.

Ltac read_closed_form :=
  rewrite ?after_read_unfold, ?read_value_unfold;
  cbn [period delta_val last_tick new_tick true_position].

(** The exact half of the period, in [Q], against an integer. *)
Lemma half_lt_iff (m d : Z) :
  (inject_Z m / 2 < inject_Z d)%Q <-> m < 2 * d.
Proof.
  unfold Qlt, Qdiv, Qinv.
  cbn [Qnum Qden Qmult Qopp inject_Z Pos.mul]. lia.
Qed.

Lemma lt_neg_half_iff (m d : Z) :
  (inject_Z d < - (inject_Z m / 2))%Q <-> 2 * d < - m.
Proof.
  unfold Qlt, Qdiv, Qinv.
  cbn [Qnum Qden Qmult Qopp inject_Z Pos.mul]. lia.
Qed.

(** Reading [modulus / 2] as the integer quotient gives the same two
    conditions on an integer delta. *)
Lemma floor_half_lt_iff (m d : Z) : m / 2 < d <-> m < 2 * d.
Proof.
  pose proof (Z.div_mod m 2 ltac:(lia)).
  pose proof (Z.mod_pos_bound m 2 ltac:(lia)). lia.
Qed.

Lemma lt_neg_floor_half_iff (m d : Z) : d < - (m / 2) <-> 2 * d < - m.
Proof.
  pose proof (Z.div_mod m 2 ltac:(lia)).
  pose proof (Z.mod_pos_bound m 2 ltac:(lia)). lia.
Qed.

(** The period is never assigned after [__init__]. *)
Lemma period_after_read (self : EncoderDriver) (counter : Z) :
  period (after_read self counter) = period self.
Proof. read_closed_form. reflexivity. Qed.

Lemma period_zero (self : EncoderDriver) : period (zero self) = period self.
Proof. reflexivity. Qed.

Lemma period_run_call (self : EncoderDriver) (c : call) :
  period (run_call self c) = period self.
Proof. destruct c; [apply period_after_read | apply period_zero]. Qed.

(** ** The step of [read] (C1) *)

(** C1.  From a state whose last raw value lies in [[0, period)], on a raw
    value in [[0, period)], [read] forms the signed difference
    [delta = raw - last_raw]; the delta it keeps is [delta - period]
    exactly when [delta > period/2], [delta + period] exactly when
    [delta < -(period/2)], and [delta] itself exactly when neither holds.
    That delta is added to [true_position] as an unbounded integer, the raw
    value becomes the last raw value, the updated position is returned, and
    the period is left as it was. *)
Theorem read_sample_step (self : EncoderDriver) (raw : Z) :
  0 <= new_tick self < period self ->
  0 <= raw < period self ->
  let m := period self in
  let delta := raw - new_tick self in
  let self' := after_read self raw in
  ((inject_Z m / 2 < inject_Z delta)%Q <-> delta_val self' = delta - m) /\
  ((inject_Z delta < - (inject_Z m / 2))%Q <-> delta_val self' = delta + m) /\
  (~ (inject_Z m / 2 < inject_Z delta)%Q /\
   ~ (inject_Z delta < - (inject_Z m / 2))%Q <-> delta_val self' = delta) /\
  true_position self' = true_position self + delta_val self' /\
  new_tick self' = raw /\
  read_value self raw = true_position self' /\
  period self' = m.
Proof.
  intros Hlast Hraw m delta self'. subst self'.
  rewrite !half_lt_iff, !lt_neg_half_iff.
  read_closed_form. fold m delta.
  repeat split; intros; split_corrected; lia.
Qed.

Lemma read_sample_step_witness :
  0 <= new_tick __init__ < period __init__ /\ 0 <= 65530 < period __init__ /\
  delta_val (after_read __init__ 65530) = 65530 - period __init__.
Proof.
  assert (Hlast : 0 <= new_tick __init__ < period __init__) by (cbn; lia).
  assert (Hraw : 0 <= 65530 < period __init__) by (cbn; lia).
  split; [exact Hlast | split; [exact Hraw |]].
  destruct (read_sample_step __init__ 65530 Hlast Hraw) as [Hdown _].
  apply Hdown. apply half_lt_iff. cbn. lia.
Defined.

(** ** Wrap of a 16-bit counter (C2) *)

(** C2.  On a constructed driver, whose period is [2**16 - 1], whatever the
    other attributes hold: with last raw value 65530, [read] of 5 forms the
    raw delta -65525 and keeps 10, so the position rises by 10; with last
    raw value 5, [read] of 65530 forms 65525 and keeps -10, so the position
    falls by 10.  A 16-bit counter has moved by 11 ticks in both cases. *)
Theorem read_wrap_16bit (dv lt tp : Z) :
  let up := mkEncoderDriver (period __init__) dv lt 65530 tp in
  let down := mkEncoderDriver (period __init__) dv lt 5 tp in
  period __init__ = 65535 /\
  5 - new_tick up = -65525 /\
  delta_val (after_read up 5) = 10 /\
  true_position (after_read up 5) = tp + 10 /\
  65530 - new_tick down = 65525 /\
  delta_val (after_read down 65530) = -10 /\
  true_position (after_read down 65530) = tp - 10.
Proof.
  intros up down. subst up down. read_closed_form.
  change (period __init__) with 65535.
  repeat split; try reflexivity; split_corrected; lia.
Qed.

(** The same two readings on a driver fresh from [__init__]: the position
    goes from 0 to -5 and then to 5. *)
Lemma read_wrap_from_init :
  true_position (read_all __init__ [65530]) = -5 /\
  true_position (read_all __init__ [65530; 5]) = 5.
Proof. split; vm_compute; reflexivity. Qed.

(** With the counter's range 65536 in place of the period the same
    correction gives the 11 ticks. *)
Remark corrected_full_range :
  corrected (2 ^ 16) (5 - 65530) = 11 /\ corrected (2 ^ 16) (65530 - 5) = -11.
Proof. split; reflexivity. Qed.

(** ** [zero] (C3) *)

(** C3.  [zero] sets [true_position] to 0 and leaves every other attribute
    as it was, in particular the last raw value, so the delta the next
    [read] forms and keeps is the one it would have kept without the
    [zero].  From a fresh driver, [read] of 100 gives position 100, [zero]
    gives 0, and [read] of 110 then keeps the delta 110 - 100 = 10 and
    gives position 10. *)
Theorem zero_frame (self : EncoderDriver) :
  true_position (zero self) = 0 /\
  period (zero self) = period self /\
  delta_val (zero self) = delta_val self /\
  last_tick (zero self) = last_tick self /\
  new_tick (zero self) = new_tick self /\
  (forall raw,
     delta_val (after_read (zero self) raw) = delta_val (after_read self raw) /\
     read_value (zero self) raw = delta_val (after_read self raw)) /\
  (let s1 := after_read __init__ 100 in
   let s2 := zero s1 in
   let s3 := after_read s2 110 in
   true_position s1 = 100 /\ new_tick s1 = 100 /\
   true_position s2 = 0 /\ new_tick s2 = 100 /\
   delta_val s3 = 110 - 100 /\ true_position s3 = 10 /\
   read_value s2 110 = 10).
Proof.
  repeat split; try reflexivity; try (vm_compute; reflexivity).
  all: read_closed_form; unfold zero, set_true_position.
  all: cbn [period delta_val last_tick new_tick true_position].
  all: lia.
Qed.

(** ** The tie at half of the counter's range (C4) *)

(** C4.  On a constructed driver, whose period is [2**16 - 1], whatever the
    other attributes hold: a raw delta of 32768, half of the 65536 values
    of the 16-bit counter, passes the first comparison of [read], which is
    with 32767.5; it is lowered by the period, so that -32767 is kept and
    the position falls by 32767 instead of rising by 32768.  On a driver
    fresh from [__init__] this is the read of the counter value 32768. *)
Theorem read_tie_16bit (dv lt last tp : Z) :
  let self := mkEncoderDriver (period __init__) dv lt last tp in
  let raw := last + 2 ^ 16 / 2 in
  raw - new_tick self = 32768 /\
  py_gt (raw - new_tick self)
        ((1 # 2) * py_float_of_int (period self))%Q = true /\
  delta_val (after_read self raw) = -32767 /\
  true_position (after_read self raw) = tp - 32767 /\
  delta_val (after_read __init__ 32768) = -32767 /\
  read_value __init__ 32768 = -32767.
Proof.
  intros self raw. subst self raw.
  rewrite py_gt_half. read_closed_form.
  change (period __init__) with 65535. change (2 ^ 16 / 2) with 32768.
  replace (last + 32768 - last) with 32768 by lia.
  repeat split; reflexivity.
Qed.

(** The period of a constructed driver is odd, so no integer delta is
    exactly half of it: the deltas up to 32767 stand and the deltas from
    32768 are lowered by the period. *)
Remark period_init_odd :
  Z.even (period __init__) = false /\
  corrected (period __init__) 32767 = 32767 /\
  corrected (period __init__) 32768 = -32767.
Proof. repeat split. Qed.

(** ** Sequences without wrap (C5) *)

Lemma corrected_no_wrap (p d : Z) : 2 * Z.abs d < p -> corrected p d = d.
Proof. intros H. split_corrected; lia. Qed.

Lemma no_wrap_pairs_cons (p a b : Z) (rest : list Z) :
  no_wrap_pairs p (a :: b :: rest) = true <->
  2 * Z.abs (b - a) < p /\ no_wrap_pairs p (b :: rest) = true.
Proof.
  cbn [no_wrap_pairs]. rewrite andb_true_iff, Z.ltb_lt. reflexivity.
Qed.

(** From any state, the last raw value of the state standing before the
    sequence. *)
Lemma read_all_no_wrap (raws : list Z) :
  forall self : EncoderDriver,
    no_wrap_pairs (period self) (new_tick self :: raws) = true ->
    true_position (read_all self raws) =
    true_position self + sum_deltas (new_tick self :: raws).
Proof.
  induction raws as [|r raws IH]; intros self Hpairs.
  - cbn. lia.
  - apply no_wrap_pairs_cons in Hpairs. destruct Hpairs as [Hstep Hrest].
    cbn [read_all]. rewrite IH.
    + read_closed_form. rewrite (corrected_no_wrap _ _ Hstep).
      cbn [sum_deltas]. lia.
    + read_closed_form. exact Hrest.
Qed.

Lemma last_cons_default (raws : list Z) :
  forall a b : Z, last (b :: raws) a = last raws b.
Proof.
  induction raws as [|c raws IH]; intros a b; [reflexivity|].
  change (last (b :: c :: raws) a) with (last (c :: raws) a).
  rewrite (IH a c), (IH b c). reflexivity.
Qed.

(** The sum of the differences telescopes to last minus first. *)
Lemma sum_deltas_telescope (raws : list Z) :
  forall a : Z, sum_deltas (a :: raws) = last raws a - a.
Proof.
  induction raws as [|b raws IH]; intros a.
  - cbn. lia.
  - change (sum_deltas (a :: b :: raws)) with (b - a + sum_deltas (b :: raws)).
    rewrite IH, last_cons_default. lia.
Qed.

(** C5, as stated, fails on a fresh driver for the values 60000, 60010:
    both lie in [[0, period)] and they differ by 10, yet the position after
    the two calls is -5525, which is neither the sum of the differences
    inside the sequence (10) nor that sum with the first value counted from
    the initial last raw value 0 (60010).  The first [read] compares 60000
    with the initial last raw value 0 and takes it for a wrap. *)
Lemma read_all_sum_counterexample :
  in_range (period __init__) [60000; 60010] = true /\
  no_wrap_pairs (period __init__) [60000; 60010] = true /\
  true_position (read_all __init__ [60000; 60010]) = -5525 /\
  sum_deltas [60000; 60010] = 10 /\
  sum_deltas (new_tick __init__ :: [60000; 60010]) = 60010 /\
  ~ (in_range (period __init__) [60000; 60010] = true ->
     no_wrap_pairs (period __init__) [60000; 60010] = true ->
     true_position (read_all __init__ [60000; 60010]) = sum_deltas [60000; 60010]
     \/ true_position (read_all __init__ [60000; 60010])
        = sum_deltas (new_tick __init__ :: [60000; 60010])).
Proof.
  repeat split; try (vm_compute; reflexivity).
  intros H. destruct (H eq_refl eq_refl) as [E | E];
    vm_compute in E; discriminate E.
Qed.

(** C5, amended.  For every sequence of raw values in [[0, period)] in
    which the first value is less than half the period away from the
    initial last raw value 0 and every later value is less than half the
    period away from the one before it, the position after reading the
    whole sequence on a fresh driver is the plain sum of the differences,
    the first difference being taken from 0; that sum is the last value of
    the sequence. *)
Theorem read_all_sum_from_init (raws : list Z) :
  in_range (period __init__) raws = true ->
  no_wrap_pairs (period __init__) (new_tick __init__ :: raws) = true ->
  true_position (read_all __init__ raws) = sum_deltas (new_tick __init__ :: raws) /\
  true_position (read_all __init__ raws) = last raws 0.
Proof.
  intros _ Hpairs.
  pose proof (read_all_no_wrap raws __init__ Hpairs) as Hsum.
  change (true_position __init__) with 0 in Hsum. rewrite Z.add_0_l in Hsum.
  split; [exact Hsum|].
  rewrite Hsum, sum_deltas_telescope. change (new_tick __init__) with 0. lia.
Qed.

Lemma read_all_sum_from_init_witness :
  true_position (read_all __init__ [100; 110; 90; 30000; 60000; 65534])
  = sum_deltas (new_tick __init__ :: [100; 110; 90; 30000; 60000; 65534]).
Proof.
  apply (read_all_sum_from_init [100; 110; 90; 30000; 60000; 65534]).
  - vm_compute. reflexivity.
  - vm_compute. reflexivity.
Defined.

(** ** Repeated reading of one value (C6) *)

(** C6.  From any state and for any raw value in [[0, period)], a second
    [read] of the same value keeps the delta 0, leaves [true_position] as
    the first [read] left it, and returns what the first returned. *)
Theorem read_twice (self : EncoderDriver) (r : Z) :
  0 <= r < period self ->
  let s1 := after_read self r in
  let s2 := after_read s1 r in
  delta_val s2 = 0 /\
  true_position s2 = true_position s1 /\
  read_value s1 r = read_value self r.
Proof.
  intros Hr s1 s2. subst s1 s2. read_closed_form.
  rewrite Z.sub_diag.
  assert (H0 : corrected (period self) 0 = 0) by (split_corrected; lia).
  rewrite H0. lia.
Qed.

Lemma read_twice_witness :
  0 <= 60000 < period __init__ /\
  delta_val (after_read (after_read __init__ 60000) 60000) = 0 /\
  true_position (after_read (after_read __init__ 60000) 60000)
  = true_position (after_read __init__ 60000) /\
  read_value (after_read __init__ 60000) 60000 = read_value __init__ 60000.
Proof.
  assert (Hr : 0 <= 60000 < period __init__) by (cbn; lia).
  split; [exact Hr | exact (read_twice __init__ 60000 Hr)].
Defined.

(** ** Reversal of direction (C7) *)

Lemma corrected_opp (p d : Z) : 0 <= p -> corrected p (- d) = - corrected p d.
Proof. intros Hp. split_corrected; lia. Qed.

(** C7.  For raw values [a] and [b] in [[0, period)]: the delta [read]
    keeps when it goes from last raw value [b] to [a] is the opposite of
    the delta it keeps when it goes from [a] to [b]; reading [b] and then
    [a] from a state whose last raw value is [a] brings the position back
    to where it was. *)
Theorem read_reverse (s1 s2 : EncoderDriver) (a b : Z) :
  period s1 = period s2 ->
  0 <= a < period s1 ->
  0 <= b < period s1 ->
  new_tick s1 = a ->
  new_tick s2 = b ->
  delta_val (after_read s2 a) = - delta_val (after_read s1 b) /\
  true_position (read_all s1 [b; a]) = true_position s1.
Proof.
  intros Hper Ha Hb Hs1 Hs2. cbn [read_all]. read_closed_form.
  rewrite <- Hper, Hs1, Hs2.
  replace (a - b) with (- (b - a)) by lia.
  rewrite corrected_opp by lia. lia.
Qed.

Lemma read_reverse_witness :
  delta_val (after_read (mkEncoderDriver 65535 0 0 5 40) 65530)
  = - delta_val (after_read (mkEncoderDriver 65535 3 9 65530 (-7)) 5) /\
  true_position (read_all (mkEncoderDriver 65535 3 9 65530 (-7)) [5; 65530])
  = -7.
Proof.
  apply (read_reverse (mkEncoderDriver 65535 3 9 65530 (-7))
                      (mkEncoderDriver 65535 0 0 5 40) 65530 5).
  - reflexivity.
  - cbn. lia.
  - cbn. lia.
  - reflexivity.
  - reflexivity.
Defined.

(** ** No exception (C8) *)

(** What the view says of the attributes of the object. *)
Lemma view_attrs (o : Dyn.object) (s : EncoderDriver) :
  Dyn.view o = Some s ->
  o "period"%string = Some (Dyn.VInt (period s)) /\
  o "delta_val"%string = Some (Dyn.VInt (delta_val s)) /\
  o "last_tick"%string = Some (Dyn.VInt (last_tick s)) /\
  o "new_tick"%string = Some (Dyn.VInt (new_tick s)) /\
  o "true_position"%string = Some (Dyn.VInt (true_position s)) /\
  o "timer"%string = Some Dyn.VHandle.
Proof.
  unfold Dyn.view, Dyn.int_attr. intros Hv.
  destruct (o "period"%string) as [[p| |]|]; try discriminate Hv.
  destruct (o "delta_val"%string) as [[d| |]|]; try discriminate Hv.
  destruct (o "last_tick"%string) as [[l| |]|]; try discriminate Hv.
  destruct (o "new_tick"%string) as [[n| |]|]; try discriminate Hv.
  destruct (o "true_position"%string) as [[t| |]|]; try discriminate Hv.
  destruct (o "timer"%string) as [[c| |]|]; try discriminate Hv.
  injection Hv as <-. repeat split; reflexivity.
Qed.

Ltac dyn_unfold :=
  unfold Dyn.read, Dyn.zero, Dyn.getattr, Dyn.setattr, Dyn.bind,
    Dyn.call_counter, Dyn.sub, Dyn.add, Dyn.float_mul, Dyn.gt, Dyn.lt,
    Dyn.view, Dyn.int_attr;
  cbn [String.eqb Ascii.eqb Bool.eqb andb].

(** On an object whose numeric attributes are ints, with a period that
    converts to float exactly, [read] raises nothing and does what the
    record model does. *)
Lemma dyn_read_ok (o : Dyn.object) (s : EncoderDriver) (counter : Z) :
  Dyn.view o = Some s ->
  Z.abs (period s) <= 2 ^ 24 ->
  exists o',
    Dyn.read o counter = Dyn.Ok (o', Dyn.VInt (read_value s counter)) /\
    Dyn.view o' = Some (after_read s counter).
Proof.
  intros Hv Hp.
  destruct (view_attrs o s Hv) as (Ep & Ed & El & En & Et & Etim).
  apply Z.leb_le in Hp.
  rewrite after_read_unfold, read_value_unfold.
  unfold Dyn.read, Dyn.getattr, Dyn.setattr, Dyn.bind, Dyn.call_counter,
    Dyn.sub, Dyn.add, Dyn.float_mul, Dyn.gt, Dyn.lt.
  cbn [String.eqb Ascii.eqb Bool.eqb andb].
  rewrite En, Etim, Ep, Hp, py_gt_half. unfold corrected.
  destruct (period s <? 2 * (counter - new_tick s)).
  - rewrite Et. eexists. split; [reflexivity|].
    dyn_unfold. rewrite Ep, Etim. reflexivity.
  - rewrite py_lt_neg_half.
    destruct (2 * (counter - new_tick s) <? - period s);
      rewrite Et; (eexists; split; [reflexivity|]);
      dyn_unfold; rewrite Ep, Etim; reflexivity.
Qed.

Lemma dyn_zero_ok (o : Dyn.object) (s : EncoderDriver) :
  Dyn.view o = Some s ->
  exists o',
    Dyn.zero o = Dyn.Ok (o', Dyn.VNone) /\ Dyn.view o' = Some (zero s).
Proof.
  intros Hv.
  destruct (view_attrs o s Hv) as (Ep & Ed & El & En & Et & Etim).
  eexists. split; [reflexivity|].
  dyn_unfold. rewrite Ep, Ed, El, En, Etim. reflexivity.
Qed.

Lemma dyn_run_calls_ok (cs : list call) :
  forall (o : Dyn.object) (s : EncoderDriver),
    Dyn.view o = Some s ->
    Z.abs (period s) <= 2 ^ 24 ->
    exists o',
      Dyn.run_calls o cs = Dyn.Ok o' /\ Dyn.view o' = Some (run_calls s cs).
Proof.
  unfold run_calls.
  induction cs as [|c cs IH]; intros o s Hv Hp.
  - exists o. split; [reflexivity | exact Hv].
  - assert (Hstep : exists o1,
               Dyn.run_call o c = Dyn.Ok o1 /\
               Dyn.view o1 = Some (run_call s c)).
    { destruct c as [counter|]; cbn [Dyn.run_call run_call].
      - destruct (dyn_read_ok o s counter Hv Hp) as (o1 & Hr & Hv1).
        exists o1. rewrite Hr. split; [reflexivity | exact Hv1].
      - destruct (dyn_zero_ok o s Hv) as (o1 & Hz & Hv1).
        exists o1. rewrite Hz. split; [reflexivity | exact Hv1]. }
    destruct Hstep as (o1 & Hc & Hv1).
    destruct (IH o1 (run_call s c) Hv1) as (o' & Hrun & Hv');
      [rewrite period_run_call; exact Hp|].
    exists o'. cbn [Dyn.run_calls fold_left]. rewrite Hc.
    split; [exact Hrun | exact Hv'].
Qed.

Lemma dyn_view_init : Dyn.view Dyn.__init__ = Some __init__.
Proof. reflexivity. Qed.

(** C8.  On the object [__init__] builds, after any sequence of [read] and
    [zero] calls, whatever integers the counter returned, in
    [[0, period)] or not: none of the calls raised; a further [read] of any
    integer raises nothing, no attribute being unset and no operand being
    other than a number, stores the value without any check and returns
    the new position; and [zero] raises nothing and returns [None].  The
    attributes after each call are those of the record model. *)
Theorem read_zero_never_raise (cs : list call) (raw : Z) :
  exists o : Dyn.object,
    Dyn.run_calls Dyn.__init__ cs = Dyn.Ok o /\
    Dyn.view o = Some (run_calls __init__ cs) /\
    (exists o',
       Dyn.read o raw
       = Dyn.Ok (o', Dyn.VInt (read_value (run_calls __init__ cs) raw)) /\
       Dyn.view o' = Some (after_read (run_calls __init__ cs) raw) /\
       o' "new_tick"%string = Some (Dyn.VInt raw)) /\
    (exists o',
       Dyn.zero o = Dyn.Ok (o', Dyn.VNone) /\
       Dyn.view o' = Some (zero (run_calls __init__ cs))).
Proof.
  assert (Hp : Z.abs (period __init__) <= 2 ^ 24) by (cbn; lia).
  destruct (dyn_run_calls_ok cs Dyn.__init__ __init__ dyn_view_init Hp)
    as (o & Hrun & Hv).
  assert (Hp' : Z.abs (period (run_calls __init__ cs)) <= 2 ^ 24).
  { unfold run_calls. clear Hrun Hv. revert Hp. generalize __init__ as s.
    induction cs as [|c cs IH]; intros s Hp; [exact Hp|].
    cbn [fold_left]. apply IH. rewrite period_run_call. exact Hp. }
  exists o. split; [exact Hrun|]. split; [exact Hv|]. split.
  - destruct (dyn_read_ok o _ raw Hv Hp') as (o' & Hr & Hv').
    exists o'. split; [exact Hr|]. split; [exact Hv'|].
    destruct (view_attrs o' _ Hv') as (_ & _ & _ & En & _).
    rewrite En. read_closed_form. reflexivity.
  - apply dyn_zero_ok. exact Hv.
Qed.

(** The exceptions are there to be raised: [read] on an object without
    attributes raises [AttributeError], on an object whose last raw value
    is [None] it raises [TypeError], and with a period of 2^54 + 2 set by
    hand the threshold is no longer exact. *)
Remark dyn_read_can_raise :
  Dyn.read Dyn.empty 5 = Dyn.Raise Dyn.AttributeError /\
  Dyn.read (Dyn.setattr Dyn.__init__ "new_tick"%string Dyn.VNone) 5
  = Dyn.Raise Dyn.TypeError /\
  Dyn.read (Dyn.setattr Dyn.__init__ "period"%string (Dyn.VInt (2 ^ 54 + 2))) 5
  = Dyn.Raise Dyn.FloatRange.
Proof. repeat split. Qed.

(** ** The range of the last raw value (C9) *)

(** C9.  [__init__] sets the last raw value and the position to 0; the last
    raw value lies in [[0, period)] at construction, still does after a
    [read] of a raw value in [[0, period)], and still does after [zero]. *)
Theorem last_raw_invariant :
  new_tick __init__ = 0 /\
  true_position __init__ = 0 /\
  last_raw_in_range __init__ /\
  (forall self raw,
     last_raw_in_range self -> 0 <= raw < period self ->
     last_raw_in_range (after_read self raw)) /\
  (forall self, last_raw_in_range self -> last_raw_in_range (zero self)).
Proof.
  unfold last_raw_in_range.
  split; [reflexivity|]. split; [reflexivity|].
  split; [cbn; lia|]. split.
  - intros self raw Hinv Hraw. read_closed_form. lia.
  - intros self Hinv. cbn. exact Hinv.
Qed.

Lemma last_raw_invariant_witness :
  last_raw_in_range (zero (after_read __init__ 65534)).
Proof.
  destruct last_raw_invariant as (_ & _ & Hinit & Hread & Hzero).
  apply Hzero. apply Hread.
  - exact Hinit.
  - cbn. lia.
Defined.

(** The invariant along any sequence of calls that respect the range. *)
Lemma last_raw_in_range_run_calls (cs : list call) :
  forall self : EncoderDriver,
    last_raw_in_range self ->
    forallb (call_in_range (period self)) cs = true ->
    last_raw_in_range (run_calls self cs).
Proof.
  unfold run_calls.
  induction cs as [|c cs IH]; intros self Hinv Hcs; [exact Hinv|].
  cbn [forallb] in Hcs. apply andb_true_iff in Hcs. destruct Hcs as [Hc Hcs].
  cbn [fold_left]. apply IH.
  - destruct c as [counter|]; cbn [run_call call_in_range] in *.
    + apply andb_true_iff in Hc. destruct Hc as [H0 H1].
      apply Z.leb_le in H0. apply Z.ltb_lt in H1.
      unfold last_raw_in_range. read_closed_form. lia.
    + exact Hinv.
  - rewrite period_run_call. exact Hcs.
Qed.

(** ** The size of one step (C10) *)

(** C10.  On a driver with the period of [__init__], with the last raw
    value and the new raw value both in [[0, 2^16)], one [read] changes
    [true_position] by at most 32767 in absolute value, which is less than
    half of 2^16, whether a correction is applied or not. *)
Theorem read_step_bound (self : EncoderDriver) (raw : Z) :
  period self = period __init__ ->
  0 <= new_tick self < 2 ^ 16 ->
  0 <= raw < 2 ^ 16 ->
  Z.abs (true_position (after_read self raw) - true_position self) <= 32767 /\
  2 * Z.abs (true_position (after_read self raw) - true_position self) < 2 ^ 16.
Proof.
  intros Hper Hlast Hraw. read_closed_form. rewrite Hper.
  change (period __init__) with 65535. change (2 ^ 16) with 65536 in *.
  split_corrected; lia.
Qed.

Lemma read_step_bound_witness :
  Z.abs (true_position (after_read __init__ 65535) - true_position __init__) <= 32767.
Proof.
  apply (read_step_bound __init__ 65535).
  - reflexivity.
  - cbn. lia.
  - cbn. lia.
Defined.

(** The bound of C10 is reached. *)
Remark step_bound_reached :
  true_position (after_read __init__ 32767) - true_position __init__ = 32767 /\
  true_position (after_read __init__ 32768) - true_position __init__ = -32767.
Proof. split; vm_compute; reflexivity. Qed.

(** * Further properties of the driver *)

(** ** The delta [read] keeps, for any counter value *)

Lemma corrected_cases (p d : Z) :
  corrected p d = d - p \/ corrected p d = d \/ corrected p d = d + p.
Proof. split_corrected; lia. Qed.

Lemma corrected_abs_le (p d : Z) : 0 <= p -> Z.abs (corrected p d) <= Z.abs d.
Proof. intros Hp. split_corrected; lia. Qed.

Lemma corrected_half_bound (p d : Z) :
  - p < d < p -> 2 * Z.abs (corrected p d) <= p.
Proof. intros Hd. split_corrected; lia. Qed.

(** After a [read] of any integer, in the range of the counter or not, the
    three tick attributes of the object are related: [last_tick] is the
    value read by the call before, and [delta_val] is
    [new_tick - last_tick], or that lowered or raised by one period, never
    by more; for a period that is not negative the correction never makes
    the delta larger in magnitude. *)
Theorem read_single_correction (self : EncoderDriver) (counter : Z) :
  0 <= period self ->
  let self' := after_read self counter in
  last_tick self' = new_tick self /\
  (delta_val self' = new_tick self' - last_tick self' - period self' \/
   delta_val self' = new_tick self' - last_tick self' \/
   delta_val self' = new_tick self' - last_tick self' + period self') /\
  Z.abs (delta_val self') <= Z.abs (new_tick self' - last_tick self').
Proof.
  intros Hp self'. subst self'. read_closed_form.
  split; [reflexivity|]. split.
  - apply corrected_cases.
  - apply corrected_abs_le. exact Hp.
Qed.

(** A counter value three periods ahead is lowered by one period only. *)
Lemma read_single_correction_witness :
  delta_val (after_read __init__ (3 * 65535)) = 2 * 65535 /\
  Z.abs (delta_val (after_read __init__ (3 * 65535))) <= 3 * 65535.
Proof.
  assert (Hp : 0 <= period __init__) by (cbn; lia).
  destruct (read_single_correction __init__ (3 * 65535) Hp) as (_ & _ & Hle).
  split; [reflexivity | exact Hle].
Defined.

(** ** Residues of the position *)

Lemma read_all_keeps_residue (counters : list Z) :
  forall self : EncoderDriver,
    let self' := read_all self counters in
    (true_position self' - new_tick self') mod period self' =
    (true_position self - new_tick self) mod period self /\
    period self' = period self.
Proof.
  induction counters as [|c counters IH]; intros self; [split; reflexivity|].
  cbn [read_all]. cbn zeta in *.
  destruct (IH (after_read self c)) as [Hres Hper]. rewrite Hres, Hper.
  read_closed_form. split; [|reflexivity].
  destruct (corrected_cases (period self) (c - new_tick self)) as [E|[E|E]];
    rewrite E.
  - replace (true_position self + (c - new_tick self - period self) - c)
      with (true_position self - new_tick self + (-1) * period self) by lia.
    apply Z_mod_plus_full.
  - f_equal. lia.
  - replace (true_position self + (c - new_tick self + period self) - c)
      with (true_position self - new_tick self + 1 * period self) by lia.
    apply Z_mod_plus_full.
Qed.

Lemma fresh_driver_residue (counters : list Z) :
  true_position (read_all __init__ counters) mod 65535 =
  new_tick (read_all __init__ counters) mod 65535.
Proof.
  destruct (read_all_keeps_residue counters __init__) as [Hres Hper].
  cbn zeta in *. rewrite Hper in Hres.
  change (period __init__) with 65535 in Hres.
  change (true_position __init__ - new_tick __init__) with 0 in Hres.
  rewrite Zminus_mod, Z.mod_0_l in Hres by lia.
  pose proof (Z.mod_pos_bound (true_position (read_all __init__ counters)) 65535
                ltac:(lia)) as Ht.
  pose proof (Z.mod_pos_bound (new_tick (read_all __init__ counters)) 65535
                ltac:(lia)) as Hn.
  set (t := true_position (read_all __init__ counters) mod 65535) in *.
  set (n := new_tick (read_all __init__ counters) mod 65535) in *.
  destruct (Z.eq_dec t n) as [E|NE]; [exact E|exfalso].
  destruct (Z.lt_total t n) as [L|[L|L]]; [|lia|].
  - rewrite <- (Z_mod_plus_full (t - n) 1 65535) in Hres.
    rewrite Z.mod_small in Hres by lia. lia.
  - rewrite Z.mod_small in Hres by lia. lia.
Qed.

(** Whatever is read, in range or not, wrapped or not, [read] keeps the
    residue of [true_position - new_tick] modulo the period and the period
    itself: along any sequence of reads the position and the last raw value
    move together modulo the period.  On a driver fresh from [__init__]
    they have the same residue modulo 65535 after any sequence of reads. *)
Theorem read_all_residue (counters : list Z) (self : EncoderDriver) :
  (true_position (read_all self counters)
   - new_tick (read_all self counters)) mod period self =
  (true_position self - new_tick self) mod period self /\
  period (read_all self counters) = period self /\
  true_position (read_all __init__ counters) mod 65535 =
  new_tick (read_all __init__ counters) mod 65535.
Proof.
  destruct (read_all_keeps_residue counters self) as [Hres Hper].
  cbn zeta in *. rewrite Hper in Hres.
  split; [exact Hres|]. split; [exact Hper|].
  apply fresh_driver_residue.
Qed.

(** ** Reading a counter that counts modulo some number *)

(** The raw values of a counter with [n] values at two true positions [a]
    and [a + x] less than [n] apart: their difference is [x], or [x] moved
    by [n] when the counter passed its end in between. *)
Lemma residue_difference (n a x : Z) :
  0 < n -> Z.abs x < n ->
  let k := (a + x) / n - a / n in
  -1 <= k <= 1 /\
  (a + x) mod n - a mod n = x - n * k /\
  - n < x - n * k < n.
Proof.
  intros Hn Hx k.
  pose proof (Z_div_mod_eq_full a n) as Ha.
  pose proof (Z_div_mod_eq_full (a + x) n) as Hax.
  pose proof (Z.mod_pos_bound a n Hn) as Hra.
  pose proof (Z.mod_pos_bound (a + x) n Hn) as Hrax.
  assert (Hdiff : (a + x) mod n - a mod n = x - n * k) by (subst k; lia).
  split; [|split; [exact Hdiff | lia]].
  assert (Hnk : - (2 * n) < n * k < 2 * n) by lia.
  split; nia.
Qed.

Lemma corrected_residues (p a x : Z) :
  0 < p -> 2 * Z.abs x < p ->
  corrected p ((a + x) mod p - a mod p) = x.
Proof.
  intros Hp Hx.
  destruct (residue_difference p a x Hp ltac:(lia)) as (Hk & Hd & _).
  cbn zeta in *. rewrite Hd.
  set (k := (a + x) / p - a / p) in *.
  assert (Hcases : k = -1 \/ k = 0 \/ k = 1) by lia.
  destruct Hcases as [E|[E|E]]; rewrite E; split_corrected; lia.
Qed.

Lemma corrected_residues_succ (p a x : Z) :
  0 < p -> 2 * Z.abs x < p ->
  corrected p ((a + x) mod (p + 1) - a mod (p + 1)) =
  x - ((a + x) / (p + 1) - a / (p + 1)).
Proof.
  intros Hp Hx.
  destruct (residue_difference (p + 1) a x ltac:(lia) ltac:(lia))
    as (Hk & Hd & _).
  cbn zeta in *. rewrite Hd.
  set (k := (a + x) / (p + 1) - a / (p + 1)) in *.
  assert (Hcases : k = -1 \/ k = 0 \/ k = 1) by lia.
  destruct Hcases as [E|[E|E]]; rewrite E; split_corrected; lia.
Qed.

(** One [read] of a counter that counts modulo the period.  When the true
    position moved from [a] to [a + x] since the read before, the delta
    kept is congruent to [x] modulo the period and at most half the period
    in magnitude; it is [x] itself when [x] is smaller than half the period
    in magnitude, and it is not [x] when [x] is larger than that. *)
Theorem read_recovers_step (self : EncoderDriver) (a x : Z) :
  0 < period self ->
  new_tick self = a mod period self ->
  let self' := after_read self ((a + x) mod period self) in
  (delta_val self' - x) mod period self = 0 /\
  2 * Z.abs (delta_val self') <= period self /\
  (2 * Z.abs x < period self -> delta_val self' = x) /\
  (period self < 2 * Z.abs x -> delta_val self' <> x).
Proof.
  intros Hp Hlast self'. subst self'. read_closed_form. rewrite Hlast.
  set (p := period self) in *.
  pose proof (Z.mod_pos_bound a p Hp) as Hra.
  pose proof (Z.mod_pos_bound (a + x) p Hp) as Hrax.
  assert (Hbound : 2 * Z.abs (corrected p ((a + x) mod p - a mod p)) <= p)
    by (apply corrected_half_bound; lia).
  split; [|split; [exact Hbound | split]].
  - pose proof (Z_div_mod_eq_full a p) as Ha.
    pose proof (Z_div_mod_eq_full (a + x) p) as Hax.
    destruct (corrected_cases p ((a + x) mod p - a mod p)) as [E|[E|E]];
      rewrite E.
    + replace ((a + x) mod p - a mod p - p - x)
        with ((a / p - (a + x) / p - 1) * p) by lia.
      apply Z_mod_mult.
    + replace ((a + x) mod p - a mod p - x)
        with ((a / p - (a + x) / p) * p) by lia.
      apply Z_mod_mult.
    + replace ((a + x) mod p - a mod p + p - x)
        with ((a / p - (a + x) / p + 1) * p) by lia.
      apply Z_mod_mult.
  - intros Hx. apply corrected_residues; assumption.
  - intros Hx. lia.
Qed.

(** A step of 11 across the end of the counter is recovered; a step of
    40000 is taken for a step of -25535. *)
Lemma read_recovers_step_witness :
  delta_val (after_read (mkEncoderDriver 65535 0 0 65530 0)
                        ((65530 + 11) mod 65535)) = 11 /\
  delta_val (after_read (mkEncoderDriver 65535 0 0 65530 0)
                        ((65530 + 40000) mod 65535)) <> 40000.
Proof.
  assert (Hp : 0 < period (mkEncoderDriver 65535 0 0 65530 0)) by (cbn; lia).
  assert (Hl : new_tick (mkEncoderDriver 65535 0 0 65530 0)
               = 65530 mod period (mkEncoderDriver 65535 0 0 65530 0))
    by reflexivity.
  split.
  - destruct (read_recovers_step _ 65530 11 Hp Hl) as (_ & _ & Hsmall & _).
    apply Hsmall. cbn. lia.
  - destruct (read_recovers_step _ 65530 40000 Hp Hl) as (_ & _ & _ & Hlarge).
    apply Hlarge. cbn. lia.
Defined.

(** Reading a whole trajectory of true positions [x0, x1, ..., xn] through a
    counter with [n] values, when each read loses [loss] ticks. *)
Lemma read_all_trajectory (n : Z) (loss : Z -> Z) (xs : list Z) :
  forall (self : EncoderDriver) (x0 : Z),
    (forall a x, 2 * Z.abs x < period self ->
       corrected (period self) ((a + x) mod n - a mod n)
       = x - (loss (a + x) - loss a)) ->
    new_tick self = x0 mod n ->
    no_wrap_pairs (period self) (x0 :: xs) = true ->
    true_position (read_all self (map (fun x => x mod n) xs)) =
    true_position self + (last xs x0 - x0) - (loss (last xs x0) - loss x0).
Proof.
  induction xs as [|x1 xs IH]; intros self x0 Hstep Hlast Hpairs.
  - cbn. lia.
  - apply no_wrap_pairs_cons in Hpairs. destruct Hpairs as [Hx Hrest].
    cbn [map read_all]. rewrite (IH _ x1).
    + read_closed_form. rewrite Hlast.
      replace x1 with (x0 + (x1 - x0)) at 1 by lia.
      rewrite (Hstep x0 (x1 - x0) Hx).
      replace (x0 + (x1 - x0)) with x1 by lia.
      rewrite last_cons_default. lia.
    + rewrite period_after_read. exact Hstep.
    + read_closed_form. reflexivity.
    + rewrite period_after_read. exact Hrest.
Qed.

(** A counter that counts modulo the period is followed exactly.  When the
    raw values read are the residues modulo the period of true positions
    [x1, ..., xn], the last raw value of the state is the residue of [x0],
    and each position is less than half the period away from the one
    before it, the position after all the reads has moved by [xn - x0],
    however many times the counter wrapped on the way. *)
Theorem read_all_tracks (xs : list Z) (self : EncoderDriver) (x0 : Z) :
  0 < period self ->
  new_tick self = x0 mod period self ->
  no_wrap_pairs (period self) (x0 :: xs) = true ->
  true_position (read_all self (map (fun x => x mod period self) xs)) =
  true_position self + (last xs x0 - x0).
Proof.
  intros Hp Hlast Hpairs.
  rewrite (read_all_trajectory (period self) (fun _ => 0) xs self x0);
    [lia | | exact Hlast | exact Hpairs].
  intros a x Hx. rewrite corrected_residues by assumption. lia.
Qed.

(** Three turns of a counter with 1000 values, forwards, in steps of 400. *)
Lemma read_all_tracks_witness :
  true_position
    (read_all (mkEncoderDriver 1000 0 0 0 0)
       (map (fun x => x mod 1000)
            [400; 800; 1200; 1600; 2000; 2400; 2800; 3200])) = 3200.
Proof.
  apply (read_all_tracks [400; 800; 1200; 1600; 2000; 2400; 2800; 3200]
                         (mkEncoderDriver 1000 0 0 0 0) 0).
  - cbn. lia.
  - reflexivity.
  - vm_compute. reflexivity.
Defined.

(** A counter with one value more than the period is followed with a loss
    of one tick for each passage of its end.  When the raw values read are
    the residues modulo [period + 1] of true positions [x1, ..., xn], the
    last raw value of the state is the residue of [x0], and each position is
    less than half the period away from the one before it, the position
    after all the reads has moved by [xn - x0] less the number of times the
    counter passed its end, [xn / (period + 1) - x0 / (period + 1)].  The
    16-bit counter of the timers is such a counter for the period of
    [__init__]. *)
Theorem read_all_drift (xs : list Z) (self : EncoderDriver) (x0 : Z) :
  0 < period self ->
  new_tick self = x0 mod (period self + 1) ->
  no_wrap_pairs (period self) (x0 :: xs) = true ->
  true_position (read_all self (map (fun x => x mod (period self + 1)) xs)) =
  true_position self + (last xs x0 - x0)
  - (last xs x0 / (period self + 1) - x0 / (period self + 1)).
Proof.
  intros Hp Hlast Hpairs.
  apply (read_all_trajectory (period self + 1)
           (fun x => x / (period self + 1)) xs self x0);
    [ | exact Hlast | exact Hpairs].
  intros a x Hx. apply corrected_residues_succ; assumption.
Qed.

(** A fresh driver on the 16-bit counter, three turns forwards in steps of
    30000 and less: the position is three ticks short of 196608. *)
Lemma read_all_drift_witness :
  true_position
    (read_all __init__
       (map (fun x => x mod (period __init__ + 1))
            [30000; 60000; 90000; 120000; 150000; 180000; 196608])) =
  196608 - 3.
Proof.
  rewrite (read_all_drift
             [30000; 60000; 90000; 120000; 150000; 180000; 196608]
             __init__ 0).
  - reflexivity.
  - cbn. lia.
  - reflexivity.
  - vm_compute. reflexivity.
Defined.

(** ** [zero] and the reads that follow *)

Lemma read_all_app (l m : list Z) :
  forall self : EncoderDriver,
    read_all self (l ++ m) = read_all (read_all self l) m.
Proof.
  induction l as [|c l IH]; intros self; [reflexivity|].
  cbn [app read_all]. apply IH.
Qed.

(** Reads started from the same attributes but another position. *)
Lemma read_all_set_true_position (counters : list Z) :
  forall (self : EncoderDriver) (v : Z),
    read_all (set_true_position self v) counters =
    set_true_position (read_all self counters)
      (true_position (read_all self counters) - true_position self + v).
Proof.
  induction counters as [|c counters IH]; intros self v.
  - cbn [read_all]. unfold set_true_position. f_equal. lia.
  - cbn [read_all].
    replace (after_read (set_true_position self v) c)
      with (set_true_position (after_read self c)
              (v + corrected (period self) (c - new_tick self)))
      by (read_closed_form; reflexivity).
    rewrite IH. unfold set_true_position. f_equal.
    read_closed_form. lia.
Qed.

(** [zero] only moves the origin.  After the same reads, the driver that
    was zeroed first holds the position of the driver that was not, less
    the position at the time of the [zero]; its other attributes are the
    same.  A [zero] between two runs of reads therefore takes off what the
    first run had accumulated. *)
Theorem zero_shifts_origin (before after : list Z) (self : EncoderDriver) :
  true_position (read_all (zero self) after) =
  true_position (read_all self after) - true_position self /\
  period (read_all (zero self) after) = period (read_all self after) /\
  delta_val (read_all (zero self) after) = delta_val (read_all self after) /\
  last_tick (read_all (zero self) after) = last_tick (read_all self after) /\
  new_tick (read_all (zero self) after) = new_tick (read_all self after) /\
  true_position (read_all (zero (read_all self before)) after) =
  true_position (read_all self (before ++ after))
  - true_position (read_all self before).
Proof.
  unfold zero. rewrite !read_all_set_true_position, read_all_app.
  cbn [set_true_position period delta_val last_tick new_tick true_position].
  repeat split; lia.
Qed.

(** ** Going back over a path *)

(** Reading a sequence of raw values and then the same values backwards,
    down to the raw value the state started from, brings the position and
    the last raw value back to what they were, whatever the values and
    however the deltas were corrected on the way. *)
Theorem read_all_retrace (raws : list Z) :
  forall self : EncoderDriver,
    0 <= period self ->
    let self' := read_all self (raws ++ tl (rev (new_tick self :: raws))) in
    true_position self' = true_position self /\
    new_tick self' = new_tick self.
Proof.
  induction raws as [|x raws IH]; intros self Hp; [split; reflexivity|].
  cbn zeta in *.
  assert (Hrev : tl (rev (new_tick self :: x :: raws)) =
                 tl (rev (x :: raws)) ++ [new_tick self]).
  { change (rev (new_tick self :: x :: raws))
      with (rev (x :: raws) ++ [new_tick self]).
    assert (Hne : rev (x :: raws) <> [])
      by (intros E; apply (f_equal (@length Z)) in E;
          rewrite length_rev in E; discriminate E).
    destruct (rev (x :: raws)); [contradiction | reflexivity]. }
  rewrite Hrev, app_assoc, read_all_app. cbn [app read_all].
  assert (Hx : new_tick (after_read self x) = x)
    by (read_closed_form; reflexivity).
  destruct (IH (after_read self x)) as [Hpos Hraw];
    [rewrite period_after_read; exact Hp|].
  rewrite Hx in Hpos, Hraw.
  set (back := read_all (after_read self x) (raws ++ tl (rev (x :: raws)))) in *.
  assert (Hper : period back = period self).
  { subst back.
    destruct (read_all_keeps_residue (raws ++ tl (rev (x :: raws)))
                (after_read self x)) as [_ Hper].
    cbn zeta in Hper. rewrite Hper. apply period_after_read. }
  read_closed_form. rewrite Hpos, Hraw, Hper. read_closed_form.
  replace (new_tick self - x) with (- (x - new_tick self)) by lia.
  rewrite corrected_opp by exact Hp. split; [lia | reflexivity].
Qed.

(** From a fresh driver: out across the end of the counter and back. *)
Lemma read_all_retrace_witness :
  true_position
    (read_all __init__ ([30000; 60000; 20000]
                        ++ tl (rev (new_tick __init__ :: [30000; 60000; 20000]))))
  = true_position __init__.
Proof.
  apply (read_all_retrace [30000; 60000; 20000] __init__). cbn. lia.
Defined.

(** ** How far the position can go *)

Lemma corrected_16bit_step (a b : Z) :
  0 <= a < 65536 -> 0 <= b < 65536 ->
  Z.abs (corrected 65535 (b - a)) <= 32767.
Proof. intros Ha Hb. split_corrected; lia. Qed.

(** On a driver with the period of [__init__] reading a 16-bit counter, the
    position after [n] reads is within [32767 * n] of where it started:
    an integer type that holds [32767 * n] in magnitude beyond the start
    holds every position of the first [n] reads. *)
Theorem read_all_growth (counters : list Z) :
  forall self : EncoderDriver,
    period self = period __init__ ->
    0 <= new_tick self < 2 ^ 16 ->
    in_range (2 ^ 16) counters = true ->
    Z.abs (true_position (read_all self counters) - true_position self)
    <= 32767 * Z.of_nat (length counters).
Proof.
  change (2 ^ 16) with 65536. change (period __init__) with 65535.
  induction counters as [|c counters IH]; intros self Hper Hlast Hin.
  - cbn. lia.
  - cbn [in_range forallb] in Hin. apply andb_true_iff in Hin.
    destruct Hin as [Hc Hin]. apply andb_true_iff in Hc.
    destruct Hc as [Hc0 Hc1]. apply Z.leb_le in Hc0. apply Z.ltb_lt in Hc1.
    cbn [read_all].
    assert (Hnext : Z.abs (true_position (read_all (after_read self c) counters)
                           - true_position (after_read self c))
                    <= 32767 * Z.of_nat (length counters)).
    { apply IH.
      - rewrite period_after_read. exact Hper.
      - read_closed_form. lia.
      - exact Hin. }
    pose proof (corrected_16bit_step (new_tick self) c Hlast (conj Hc0 Hc1))
      as Hstep.
    revert Hnext. read_closed_form. rewrite Hper. intros Hnext.
    change (length (c :: counters)) with (S (length counters)).
    rewrite Nat2Z.inj_succ. lia.
Qed.

Lemma read_all_growth_witness :
  Z.abs (true_position (read_all __init__ [32767; 65534; 32766; 65533])
         - true_position __init__) <= 32767 * 4.
Proof.
  apply (read_all_growth [32767; 65534; 32766; 65533] __init__).
  - reflexivity.
  - cbn. lia.
  - vm_compute. reflexivity.
Defined.

(** ** The test script *)

(** The loop of the script never completes a turn.  In every state a turn
    calls [enc_A.read()] once and then ends on [TypeError], the result of
    [read] being an [int] added to a [str]: nothing is printed and no
    delay is taken.  So the script, given at least one turn, ends on
    [TypeError] after exactly one call of the counter, with [enc_A] as its
    first [read] left it and [enc_B] untouched. *)
Theorem main_raises (turns : nat) (tim_ENC_A : nat -> Z) (st : script) :
  loop_body tim_ENC_A st =
    Raised TypeError
      (mkScript (after_read (enc_A st) (tim_ENC_A (counter_calls st)))
                (enc_B st) (S (counter_calls st)) (printed st) (slept_ms st)) /\
  main_loop (S turns) tim_ENC_A st = loop_body tim_ENC_A st /\
  main (S turns) tim_ENC_A =
    Raised TypeError
      (mkScript (after_read __init__ (tim_ENC_A 0%nat)) __init__ 1 [] 0).
Proof. repeat split. Qed.
